(** * go-mfs: Republisher, Root and File, shallow embedding

    Models [repub.go] ([Republisher.run], [Update], [WaitPub], [Close]),
    [root.go] ([NewRoot], [Root.updateChildEntry]) and [file.go]
    ([NewFile], [File.Open]). *)

From Stdlib Require Import Bool List String NArith ZArith Lia.
Import ListNotations.


(** ** CIDs (go-cid)

    A [cid.Cid] is an opaque string; [cid.Undef] is the empty one.  We keep
    the CID version (the first field of its prefix) and the rest of the
    bytes as a digest string. *)

Inductive Cid : Type :=
| Undef : Cid
| MkCid (version : N) (digest : string) : Cid.

(** [c.Defined()] *)
Definition Defined (c : Cid) : bool :=
  match c with Undef => false | MkCid _ _ => true end.

(** [c.Equals(o)]: equality of the underlying strings. *)
Definition Equals (c o : Cid) : bool :=
  match c, o with
  | Undef, Undef => true
  | MkCid v1 d1, MkCid v2 d2 => N.eqb v1 v2 && String.eqb d1 d2
  | _, _ => false
  end.

(** [c.Prefix().Version]; the undefined CID has no prefix (go-cid panics on
    it), and nodes always carry a defined CID, so it is given version 0. *)
Definition Prefix_Version (c : Cid) : N :=
  match c with Undef => 0 | MkCid v _ => v end.

(** ** Republisher *)
Module Repub.

(** The state of one republisher: the locals of [run] ([lastPublished],
    [toPublish], [waiter], the two timers), the buffered [update] channel
    (capacity 1), the context cancellation and the [stopped] channel, and
    the [once] of [Close].  A timer is [true] while it is armed, i.e. while
    its channel may still deliver a tick; [Stop] followed by the drain of
    its channel makes it [false]. *)
Record State : Type := mkState {
  lastPublished : Cid;
  toPublish : Cid;
  waiter : option nat;
  quick : bool;
  longer : bool;
  update : option Cid;
  cancelled : bool;
  stopped : bool;
  once_done : bool
}.

(** What the loop does that is visible outside of it: receiving a value on
    [rp.update], calling [pubfunc] (with its outcome), closing a waiter. *)
Inductive Obs : Type :=
| Recv (c : Cid)
| Pub (c : Cid) (ok : bool)
| Release (w : nat).

(** The case chosen by the [select] of one iteration of the [for] loop.
    [SelImmediate w] receives the channel [w] of a [WaitPub] caller. *)
Inductive Sel : Type :=
| SelDone
| SelUpdate
| SelImmediate (w : nat)
| SelQuick
| SelLonger.

(** [NewRepublisher(ctx, pf, tshort, tlong, lastPublished)]: both timers
    created stopped and drained, nothing to publish. *)
Definition NewRepublisher (lastPub : Cid) : State :=
  mkState lastPub Undef None false false None false false false.

Definition set_toPublish (s : State) (c : Cid) : State :=
  mkState (lastPublished s) c (waiter s) (quick s) (longer s) (update s)
    (cancelled s) (stopped s) (once_done s).
Definition set_lastPublished (s : State) (c : Cid) : State :=
  mkState c (toPublish s) (waiter s) (quick s) (longer s) (update s)
    (cancelled s) (stopped s) (once_done s).
Definition set_waiter (s : State) (w : option nat) : State :=
  mkState (lastPublished s) (toPublish s) w (quick s) (longer s) (update s)
    (cancelled s) (stopped s) (once_done s).
Definition set_timers (s : State) (q l : bool) : State :=
  mkState (lastPublished s) (toPublish s) (waiter s) q l (update s)
    (cancelled s) (stopped s) (once_done s).
Definition set_update (s : State) (u : option Cid) : State :=
  mkState (lastPublished s) (toPublish s) (waiter s) (quick s) (longer s) u
    (cancelled s) (stopped s) (once_done s).
Definition set_cancelled (s : State) : State :=
  mkState (lastPublished s) (toPublish s) (waiter s) (quick s) (longer s)
    (update s) true (stopped s) (once_done s).
Definition set_stopped (s : State) : State :=
  mkState (lastPublished s) (toPublish s) (waiter s) (quick s) (longer s)
    (update s) (cancelled s) true (once_done s).
Definition set_once_done (s : State) : State :=
  mkState (lastPublished s) (toPublish s) (waiter s) (quick s) (longer s)
    (update s) (cancelled s) (stopped s) true.

(** [Update(c)] on the caller's side.  With a full buffer the old value is
    received and [c] sent in its place; the inner [default] is only taken
    when a concurrent [Update] refills the buffer in between, which a single
    caller never observes. *)
Definition Update (c : Cid) (s : State) : State :=
  match update s with
  | Some _ => set_update s (Some c)
  | None => set_update s (Some c)
  end.

(** Steps 1-3 at the end of an iteration: stop the timers, publish
    [toPublish] if it is defined ([ok] is the outcome of [rp.pubfunc]),
    close the waiter.  On failure the long timer is reset and the iteration
    [continue]s, skipping step 3. *)
Definition cleanup (ok : bool) (s : State) : State * list Obs :=
  let s := set_timers s false false in
  let '(s, obs, skip) :=
    if Defined (toPublish s) then
      if ok then
        (set_toPublish (set_lastPublished s (toPublish s)) Undef,
         [Pub (toPublish s) true], false)
      else (set_timers s false true, [Pub (toPublish s) false], true)
    else (s, [], false) in
  if skip then (s, obs)
  else
    match waiter s with
    | Some w => (set_waiter s None, obs ++ [Release w])
    | None => (s, obs)
    end.

(** One iteration of the [for ctx.Err() == nil] loop of [run], with the
    case [sel] chosen by its [select].  [None]: the case is not ready (or the
    loop has already returned).  Once the context is cancelled the loop
    returns, closing [rp.stopped]. *)
Definition run_iter (s : State) (sel : Sel) (ok : bool)
  : option (State * list Obs) :=
  if stopped s then None
  else if cancelled s then Some (set_stopped s, [])
  else
    match sel with
    | SelDone => None
    | SelUpdate =>
        match update s with
        | None => None
        | Some newValue =>
            let s := set_update s None in
            if Equals (lastPublished s) newValue then
              let '(s', obs) := cleanup ok (set_toPublish s Undef) in
              Some (s', Recv newValue :: obs)
            else
              let l := if Defined (toPublish s) then longer s else true in
              Some (set_toPublish (set_timers s true l) newValue,
                    [Recv newValue])
        end
    | SelImmediate w =>
        let s := set_waiter s (Some w) in
        let '(s, rcv) :=
          match update s with
          | Some v => (set_update (set_toPublish s v) None, [Recv v])
          | None => (s, [])
          end in
        let s := if Equals (lastPublished s) (toPublish s)
                 then set_toPublish s Undef else s in
        let '(s', obs) := cleanup ok s in
        Some (s', rcv ++ obs)
    | SelQuick =>
        if quick s then Some (cleanup ok (set_timers s false (longer s)))
        else None
    | SelLonger =>
        if longer s then Some (cleanup ok (set_timers s (quick s) false))
        else None
    end.

(** Events of the whole system: a caller's [Update], the cancellation of
    the context given to [NewRepublisher], one loop iteration. *)
Inductive Event : Type :=
| EUpdate (c : Cid)
| ECancel
| ELoop (sel : Sel) (ok : bool).

Definition step (s : State) (e : Event) : option (State * list Obs) :=
  match e with
  | EUpdate c => Some (Update c s, [])
  | ECancel => Some (set_cancelled s, [])
  | ELoop sel ok => run_iter s sel ok
  end.

(** Runs a schedule of events; [None] if some event is not enabled. *)
Fixpoint exec (s : State) (es : list Event) : option (State * list Obs) :=
  match es with
  | [] => Some (s, [])
  | e :: es' =>
      match step s e with
      | None => None
      | Some (s1, o1) =>
          match exec s1 es' with
          | None => None
          | Some (s2, o2) => Some (s2, o1 ++ o2)
          end
      end
  end.

(** The last value the loop received on [rp.update], or the seed. *)
Fixpoint latest (seed : Cid) (tr : list Obs) : Cid :=
  match tr with
  | [] => seed
  | Recv c :: tr' => latest c tr'
  | _ :: tr' => latest seed tr'
  end.

End Repub.

(** ** [Republisher.Close]

    [rp.once.Do(func() { _ = rp.WaitPub(ctx); rp.cancel() })], then a
    [select] on [ctx.Done()] and [rp.stopped].  The body of [once] is given
    as the list of the actions it performs, in program order; the first
    call also marks the [once] as done. *)
Module Close.
Import Repub.

Inductive Action : Type :=
| DoWaitPub
| DoCancel.

Definition once_Do (s : State) : State * list Action :=
  if once_done s then (s, [])
  else (set_once_done s, [DoWaitPub; DoCancel]).

(** The effect of the body on the republisher once [WaitPub] has returned:
    [rp.cancel()] cancels the context of [run]. *)
Definition perform (s : State) (a : Action) : State :=
  match a with
  | DoWaitPub => s
  | DoCancel => set_cancelled s
  end.

Inductive CtxErr : Type := ErrCtxDone.

(** The results the final [select] may return: [ctx.Err()] when the
    caller's context is done, [nil] when [rp.stopped] is closed (both when
    both are ready).  The empty list means that the call blocks. *)
Definition wait_stopped (ctxDone : bool) (s : State) : list (option CtxErr) :=
  (if ctxDone then [Some ErrCtxDone] else []) ++
  (if stopped s then [None] else []).

(** A whole [Close] call whose [WaitPub] has returned: the actions of the
    [once], their effect, and the possible results of the final wait. *)
Definition Close (ctxDone : bool) (s : State)
  : State * list Action * list (option CtxErr) :=
  let '(s1, acts) := once_Do s in
  let s2 := fold_left perform acts s1 in
  (s2, acts, wait_stopped ctxDone s2).

End Close.

(** ** Nodes, UnixFS data, the DAG service *)

(** [unixfs.pb] data types. *)
Inductive DataType : Type :=
| TRaw | TDirectory | TFile | TMetadata | TSymlink | THAMTShard.

(** The bytes of a ProtoNode's [Data()]: either a well-formed UnixFS
    [FSNode] of some type, or bytes [ft.FSNodeFromBytes] rejects. *)
Inductive PBData : Type :=
| UnixfsData (t : DataType)
| BadData.

(** [ipld.Node]: a [*dag.ProtoNode], a [*dag.RawNode], or another node
    kind (e.g. a CBOR node). *)
Inductive Node : Type :=
| ProtoNode (c : Cid) (data : PBData)
| RawNode (c : Cid)
| OtherNode (c : Cid).

Definition NodeCid (n : Node) : Cid :=
  match n with ProtoNode c _ | RawNode c | OtherNode c => c end.

(** [node.String()], i.e. the string form of its CID. *)
Definition Cid_String (c : Cid) : string :=
  match c with Undef => EmptyString | MkCid _ d => d end.

Inductive Err : Type :=
| ErrFSNodeFromBytes                 (** error of [ft.FSNodeFromBytes] *)
| ErrNotUnixfsNode                   (** "node data was not unixfs node" *)
| ErrRootNotDirectory (t : DataType) (** "root must be a unixfs directory" *)
| ErrNeitherReadNorWrite             (** "file opened for neither reading nor writing" *)
| ErrUnsupportedFsnode               (** "unsupported fsnode type for 'file'" *)
| ErrSymlink                         (** "symlinks not yet supported" *)
| ErrDagModifier                     (** error of [mod.NewDagModifier] *)
| ErrStore.                          (** error of [DAGService.Add] *)

Inductive result (A : Type) : Type :=
| Ok (a : A)
| Error (e : Err).
Arguments Ok {A} a.
Arguments Error {A} e.

(** [ft.FSNodeFromBytes(data)], returning the decoded node's [Type()]. *)
Definition FSNodeFromBytes (d : PBData) : result DataType :=
  match d with
  | UnixfsData t => Ok t
  | BadData => Error ErrFSNodeFromBytes
  end.

(** The content of a DAG service: the nodes added to it. *)
Definition Store : Type := list Node.

(** ** Root ([root.go]) *)
Module Root.

Record Directory : Type := mkDirectory {
  dir_name : string;
  dir_node : Node;
  dagService : Store
}.

(** The publish callback; the outcome of each of its calls is a choice of
    the schedule in [Repub.run_iter], so only its presence matters here. *)
Definition PubFunc : Type := Cid -> bool.

Record Root : Type := mkRoot {
  dir : Directory;
  repub : option Repub.State
}.

(** Modelled from the spec: [NewDirectory] (dir.go, not among these
    sources).  The spec lets [NewRoot] fail only on a node that is not a
    directory, so building the root Directory of a directory node
    succeeds. *)
Definition NewDirectory (name : string) (node : Node) (ds : Store)
  : result Directory :=
  Ok (mkDirectory name node ds).

(** [NewRoot(ds, node, pf)], for the ProtoNode [node] with CID [c] and data
    [d], given the [NewDirectory] it calls. *)
Definition NewRoot_with
    (newDirectory : string -> Node -> Store -> result Directory)
    (ds : Store) (c : Cid) (d : PBData) (pf : option PubFunc)
  : result Root :=
  match FSNodeFromBytes d with
  | Error _ => Error ErrNotUnixfsNode
  | Ok t =>
      match t with
      | TDirectory | THAMTShard =>
          match newDirectory (Cid_String c) (ProtoNode c d) ds with
          | Error e => Error e
          | Ok dir =>
              let repub :=
                match pf with
                | Some _ => Some (Repub.NewRepublisher c)
                | None => None
                end in
              Ok (mkRoot dir repub)
          end
      | t => Error (ErrRootNotDirectory t)
      end
  end.

Definition NewRoot := NewRoot_with NewDirectory.

Definition is_directory_type (t : DataType) : bool :=
  match t with TDirectory | THAMTShard => true | _ => false end.

Section UpdateChildEntry.

(** [dir.dagService.Add(ctx, node)]: the backing store's [Put]; when it
    succeeds the node is in the store. *)
Variable Add : Store -> Node -> result Store.
Hypothesis Add_stores : forall st n st', Add st n = Ok st' -> In n st'.

Record child : Type := mkChild { Name : string; ChildNode : Node }.

Definition set_dagService (d : Directory) (st : Store) : Directory :=
  mkDirectory (dir_name d) (dir_node d) st.

(** [kr.updateChildEntry(c)]; the directory lock is held around [Add] only
    and does not change the outcome. *)
Definition updateChildEntry (kr : Root) (c : child) : Root * option Err :=
  let d := dir kr in
  match Add (dagService d) (ChildNode c) with
  | Error e => (kr, Some e)
  | Ok st =>
      let kr := mkRoot (set_dagService d st) (repub kr) in
      match repub kr with
      | Some rp =>
          (mkRoot (dir kr) (Some (Repub.Update (NodeCid (ChildNode c)) rp)),
           None)
      | None => (kr, None)
      end
  end.

End UpdateChildEntry.

(** [kr.GetDirectory()] *)
Definition GetDirectory (kr : Root) : Directory := dir kr.

Section FlushClose.

(** [Directory.GetNode()] of dir.go, applied to the root directory. *)
Variable dir_GetNode : Directory -> result Node.


(** The calls [Root.Close] makes on its republisher. *)
Inductive RepubCall : Type :=
| CallUpdate (c : Cid)
| CallWaitPub
| CallClose.

(** [kr.Close()]: the calls it makes on [kr.repub], in program order, and
    its result.  [waitRes] is what [kr.repub.WaitPub(ctx)] returns: the
    error of its [closeTimeout] context, or nil.  The deferred
    [kr.repub.Close()] is registered first and runs on every return path;
    its result is discarded (the call passes no context, unlike the
    [Close(ctx)] of repub.go). *)
Definition Close (kr : Root) (waitRes : option Close.CtxErr)
  : list RepubCall * option (Err + Close.CtxErr) :=
  let deferred := match repub kr with Some _ => [CallClose] | None => [] end in
  match dir_GetNode (GetDirectory kr) with
  | Error e => (deferred, Some (inl e))
  | Ok nd =>
      match repub kr with
      | Some _ =>
          let calls := [CallUpdate (NodeCid nd); CallWaitPub] ++ deferred in
          match waitRes with
          | Some e => (calls, Some (inr e))
          | None => (calls, None)
          end
      | None => ([], None)
      end
  end.

End FlushClose.

End Root.

(** ** File ([file.go]) *)
Module File.

(** [Flags{Read, Write, Sync}] *)
Record Flags : Type := mkFlags { Read : bool; Write : bool; Sync : bool }.

(** [desclock], a [sync.RWMutex]: held for writing, or by [readers]
    readers. *)
Record RWMutex : Type := mkRWMutex { wlocked : bool; readers : nat }.

Record File : Type := mkFile {
  name : string;
  node : Node;
  dagService : Store;
  desclock : RWMutex;
  RawLeaves : bool
}.

(** [NewFile(name, node, parent, dserv)]; the parent link plays no part. *)
Definition NewFile (nm : string) (nd : Node) (dserv : Store) : result File :=
  let fi := mkFile nm nd dserv (mkRWMutex false 0) false in
  if (0 <? Prefix_Version (NodeCid nd))%N
  then Ok (mkFile nm nd dserv (mkRWMutex false 0) true)
  else Ok fi.

(** [fi.GetNode()] never fails. *)
Definition GetNode (fi : File) : result Node := Ok (node fi).

Record DagModifier : Type := mkDagModifier { dm_node : Node; dm_RawLeaves : bool }.

Inductive fdState : Type := stateCreated | stateFlushed | stateClosed.

Record FileDescriptor : Type := mkFD {
  fd_flags : Flags;
  fd_mod : DagModifier;
  fd_state : fdState
}.

Definition set_desclock (fi : File) (l : RWMutex) : File :=
  mkFile (name fi) (node fi) (dagService fi) l (RawLeaves fi).

Section Open.

(** [mod.NewDagModifier(ctx, node, dserv, splitter)] of go-unixfs. *)
Variable NewDagModifier : Node -> Store -> result DagModifier.

(** The part of [Open] after the lock is taken. *)
Definition open_body (fi : File) (flags : Flags) : result FileDescriptor :=
  match GetNode fi with
  | Error e => Error e
  | Ok nd =>
      let check :=
        match nd with
        | ProtoNode _ data =>
            match FSNodeFromBytes data with
            | Error e => Some e
            | Ok t =>
                match t with
                | TSymlink => Some ErrSymlink
                | TFile | TRaw => None
                | _ => Some ErrUnsupportedFsnode
                end
            end
        | _ => None
        end in
      match check with
      | Some e => Error e
      | None =>
          match NewDagModifier nd (dagService fi) with
          | Error e => Error e
          | Ok dmod =>
              let dmod := mkDagModifier (dm_node dmod) (RawLeaves fi) in
              Ok (mkFD flags dmod stateCreated)
          end
      end
  end.

(** [fi.Open(flags)]: [None] when taking [desclock] blocks; otherwise the
    file (with its lock, still held after a success and released by the
    deferred unlock after an error) and the result. *)
Definition Open (fi : File) (flags : Flags)
  : option (File * result FileDescriptor) :=
  let l := desclock fi in
  if Write flags then
    if wlocked l || Nat.ltb 0 (readers l) then None
    else
      match open_body fi flags with
      | Error e => Some (fi, Error e)
      | Ok fd => Some (set_desclock fi (mkRWMutex true 0), Ok fd)
      end
  else if Read flags then
    if wlocked l then None
    else
      match open_body fi flags with
      | Error e => Some (fi, Error e)
      | Ok fd =>
          Some (set_desclock fi (mkRWMutex false (S (readers l))), Ok fd)
      end
  else Some (fi, Error ErrNeitherReadNorWrite).

End Open.



Section Size.

(** [fsn.FileSize()] (a [uint64]) of the decoded data of a ProtoNode, and
    [len(nd.RawData())] of a RawNode: the node model keeps neither. *)
Variable FileSize : Node -> Z.
Variable RawData_len : Node -> Z.


End Size.

(** [fi.Sync()] (the name [Sync] is the field of [Flags]):
    [desclock.Lock()] then [desclock.Unlock()], returning nil; [None] while
    taking the write lock blocks. *)
Definition FileSync (fi : File) : option (File * option Err) :=
  let l := desclock fi in
  if wlocked l || Nat.ltb 0 (readers l) then None else Some (fi, None).

End File.

(** ** Definitions used by the statements *)
Module RepubSpec.
Import Repub.

(** The values [pubfunc] was called with, in order. *)
Fixpoint pub_values (tr : list Obs) : list Cid :=
  match tr with
  | [] => []
  | Pub c _ :: tr' => c :: pub_values tr'
  | _ :: tr' => pub_values tr'
  end.

(** A burst of updates, each received by the loop before anything else
    happens. *)
Definition receipts (ok : bool) (vs : list Cid) : list Event :=
  flat_map (fun v => [EUpdate v; ELoop SelUpdate ok]) vs.

(** Every [Update] of a schedule carries a defined CID (as [Root.Flush],
    [Root.Close] and [Root.updateChildEntry] do: node CIDs are defined). *)
Fixpoint updates_defined (es : list Event) : bool :=
  match es with
  | [] => true
  | EUpdate c :: es' => Defined c && updates_defined es'
  | _ :: es' => updates_defined es'
  end.

(** Invariants of [run]. *)
Definition pending_fresh (s : State) : Prop :=
  Defined (toPublish s) = true -> toPublish s <> lastPublished s.

Definition buffer_defined (s : State) : Prop :=
  match update s with Some c => Defined c = true | None => True end.

(** The last value received is the pending one, or the last published one
    when nothing is pending. *)
Definition tracks (L : Cid) (s : State) : Prop :=
  L = (if Defined (toPublish s) then toPublish s else lastPublished s).

(** Two CIDs for the concrete runs. *)
Definition cidA : Cid := MkCid 0 "QmA".
Definition cidB : Cid := MkCid 0 "QmB".
Definition cidC : Cid := MkCid 1 "bafyC".

(** [cidA] published, [cidB] pending, both timers armed. *)
Definition s_pendingB : State :=
  mkState cidA cidB None true true None false false false.
(** The same after a failed call of [pubfunc] on [cidB]. *)
Definition s_failedB : State :=
  mkState cidA cidB None false true None false false false.

End RepubSpec.


(** ** Definitions used by the statements about Root and File *)
Module NodeSpec.

(** A DAG service whose [Add] always succeeds, and one whose [Add] always
    fails. *)
Definition add_ok (st : Store) (n : Node) : result Store := Ok (n :: st).
Definition add_fail (st : Store) (n : Node) : result Store := Error ErrStore.

(** go-unixfs's [mod.NewDagModifier]: it accepts ProtoNodes and RawNodes
    and rejects other node kinds. *)
Definition NewDagModifier_unixfs (n : Node) (st : Store) : result File.DagModifier :=
  match n with
  | ProtoNode _ _ | RawNode _ => Ok (File.mkDagModifier n false)
  | OtherNode _ => Error ErrDagModifier
  end.

(** The node passes the type check of [Open]: a ProtoNode of type file or
    raw, or a node that is not a ProtoNode (not checked). *)
Definition passes_type_check (n : Node) : bool :=
  match n with
  | ProtoNode _ (UnixfsData TFile) | ProtoNode _ (UnixfsData TRaw) => true
  | ProtoNode _ _ => false
  | RawNode _ | OtherNode _ => true
  end.

Definition file_of (n : Node) : File.File :=
  File.mkFile "f" n [] (File.mkRWMutex false 0) false.

End NodeSpec.

(** ** Definitions used by the statements about [run] and [Update] *)
Module LoopSpec.
Import Repub.

(** A schedule of loop iterations only: no [Update], no cancellation. *)
Definition loops (ls : list (Sel * bool)) : list Event :=
  map (fun p => ELoop (fst p) (snd p)) ls.


(** The timers of [run]: a pending value has the long timer armed, and the
    short timer is armed only together with the long one. *)
Definition timers_ok (s : State) : Prop :=
  (Defined (toPublish s) = true -> longer s = true) /\
  (quick s = true -> longer s = true).

(** The value [c] given to [Update] is still in the buffer, or the loop has
    received it and it is pending or (nothing pending) last published. *)
Definition holds (c : Cid) (s : State) : Prop :=
  update s = Some c \/ (update s = None /\ RepubSpec.tracks c s).

(** [cidA] published, a failed attempt on [cidB] kept the waiter 1. *)
Definition s_waiting1 : State :=
  mkState RepubSpec.cidA RepubSpec.cidB (Some 1) false true None false false
    false.

End LoopSpec.

(** * Proofs *)

Lemma Equals_spec : forall c o, Equals c o = true <-> c = o.
Proof.
  intros [|v1 d1] [|v2 d2]; simpl; split; intro H; try discriminate; auto.
  - apply andb_true_iff in H as [H1 H2].
    apply N.eqb_eq in H1; apply String.eqb_eq in H2; subst; reflexivity.
  - inversion H; subst. rewrite N.eqb_refl, String.eqb_refl; reflexivity.
Qed.

Lemma Equals_refl : forall c, Equals c c = true.
Proof. intro c; apply Equals_spec; reflexivity. Qed.

Lemma Equals_false : forall c o, Equals c o = false <-> c <> o.
Proof.
  intros c o; rewrite <- Equals_spec; destruct (Equals c o); split;
    congruence.
Qed.


Lemma Defined_false : forall c, Defined c = false -> c = Undef.
Proof. intros [|v d]; simpl; congruence. Qed.

Module RepubFacts.
Import Repub RepubSpec.

(** Case analysis on the branches of an iteration. *)
Ltac split_iter :=
  repeat (simpl in *; match goal with
  | H : Some _ = Some _ |- _ => injection H; clear H; intros; subst
  | H : (_, _) = (_, _) |- _ => injection H; clear H; intros; subst
  | H : None = Some _ |- _ => discriminate H
  | H : Defined ?x = _ |- context [Defined ?x] => rewrite H
  | H : context [match ?x with _ => _ end] |- _ =>
      lazymatch x with
      | context [match _ with _ => _ end] => fail
      | _ => destruct x eqn:?
      end
  | |- context [match ?x with _ => _ end] =>
      lazymatch x with
      | context [match _ with _ => _ end] => fail
      | _ => destruct x eqn:?
      end
  end).

Ltac equals_to_eq :=
  repeat match goal with
  | H : Equals _ _ = true |- _ => apply Equals_spec in H; subst
  | H : Equals _ _ = false |- _ => apply Equals_false in H
  | H : Defined ?x = false |- _ => apply Defined_false in H; subst
  end.

Ltac iter_cases H :=
  unfold run_iter, cleanup in H; simpl in *; split_iter; equals_to_eq;
  try discriminate; subst; simpl in *.

Ltac finish :=
  intuition idtac;
  repeat match goal with
  | H : Defined ?x = _ |- context [Defined ?x] => rewrite H
  end;
  try congruence.

Lemma latest_app : forall seed tr o,
  latest seed (tr ++ o) = latest (latest seed tr) o.
Proof.
  intros seed tr; revert seed; induction tr as [|[] tr IH]; intros; simpl;
    auto.
Qed.

Lemma pub_values_app : forall a b,
  pub_values (a ++ b) = pub_values a ++ pub_values b.
Proof. induction a as [|[] a IH]; intros; simpl; rewrite ?IH; auto. Qed.

Lemma iter_pending_fresh : forall s sel ok s' obs,
  pending_fresh s -> run_iter s sel ok = Some (s', obs) -> pending_fresh s'.
Proof.
  intros [lp tp w q l u ca st od] sel ok s' obs Hf H.
  unfold pending_fresh in *; iter_cases H; finish.
Qed.

Lemma iter_buffer_defined : forall s sel ok s' obs,
  buffer_defined s -> run_iter s sel ok = Some (s', obs) -> buffer_defined s'.
Proof.
  intros [lp tp w q l u ca st od] sel ok s' obs Hf H.
  unfold buffer_defined in *; iter_cases H; finish.
Qed.

Lemma iter_tracks : forall L s sel ok s' obs,
  pending_fresh s -> buffer_defined s -> tracks L s ->
  run_iter s sel ok = Some (s', obs) -> tracks (latest L obs) s'.
Proof.
  intros L [lp tp w q l u ca st od] sel ok s' obs Hf Hb Ht H.
  unfold pending_fresh, buffer_defined, tracks in *; iter_cases H;
    rewrite ?latest_app; simpl; finish.
Qed.

Lemma iter_published : forall s sel ok s' obs,
  run_iter s sel ok = Some (s', obs) ->
  lastPublished s' = lastPublished s \/ In (Pub (lastPublished s') true) obs.
Proof.
  intros [lp tp w q l u ca st od] sel ok s' obs H.
  iter_cases H; rewrite ?in_app_iff; simpl; finish.
Qed.

Lemma iter_once_done : forall s sel ok s' obs,
  run_iter s sel ok = Some (s', obs) -> once_done s' = once_done s.
Proof.
  intros [lp tp w q l u ca st od] sel ok s' obs H. iter_cases H; finish.
Qed.

(** A release only ever ends an iteration that published successfully, or
    that had nothing to publish. *)
Lemma iter_release : forall s sel ok s' obs w,
  run_iter s sel ok = Some (s', obs) -> In (Release w) obs ->
  toPublish s' = Undef /\ (forall c, ~ In (Pub c false) obs) /\
  (In (Pub (lastPublished s') true) obs \/ pub_values obs = []).
Proof.
  intros [lp tp w0 q l u ca st od] sel ok s' obs w H Hin.
  iter_cases H; rewrite ?in_app_iff in *; simpl in *; finish.
Qed.

(** Invariants along a schedule. *)
Definition Inv (seed : Cid) (tr : list Obs) (s : State) : Prop :=
  pending_fresh s /\ buffer_defined s /\ tracks (latest seed tr) s /\
  (lastPublished s = seed \/ In (Pub (lastPublished s) true) tr).

Lemma step_Inv : forall seed tr s e s' o,
  Inv seed tr s ->
  (match e with EUpdate c => Defined c = true | _ => True end) ->
  step s e = Some (s', o) -> Inv seed (tr ++ o) s'.
Proof.
  intros seed tr s e s' o [Hf [Hb [Ht Hp]]] He H.
  destruct e as [c| |sel ok]; simpl in H.
  - injection H as <- <-; rewrite app_nil_r.
    destruct s; unfold Update, Inv, pending_fresh, buffer_defined, tracks in *;
      simpl in *; destruct update0; simpl; auto.
  - injection H as <- <-; rewrite app_nil_r.
    destruct s; unfold Inv, pending_fresh, buffer_defined, tracks in *;
      simpl in *; auto.
  - split; [eapply iter_pending_fresh; eauto|].
    split; [eapply iter_buffer_defined; eauto|].
    split; [rewrite latest_app; eapply iter_tracks; eauto|].
    rewrite in_app_iff.
    destruct (iter_published _ _ _ _ _ H) as [E|E]; [rewrite E|]; tauto.
Qed.

Lemma exec_Inv : forall es seed tr0 s0 s tr,
  Inv seed tr0 s0 -> updates_defined es = true ->
  exec s0 es = Some (s, tr) -> Inv seed (tr0 ++ tr) s.
Proof.
  induction es as [|e es IH]; intros seed tr0 s0 s tr HI Hd H; simpl in H.
  - injection H as <- <-; rewrite app_nil_r; auto.
  - destruct (step s0 e) as [[s1 o1]|] eqn:E1; [|discriminate].
    destruct (exec s1 es) as [[s2 o2]|] eqn:E2; [|discriminate].
    injection H as <- <-.
    assert (He : match e with EUpdate c => Defined c = true | _ => True end
                 /\ updates_defined es = true).
    { destruct e; simpl in Hd; try apply andb_true_iff in Hd; tauto. }
    destruct He as [He1 He2].
    rewrite app_assoc. eapply IH; [eapply step_Inv; eauto| exact He2 | eauto].
Qed.

Lemma Inv_init : forall seed, Inv seed [] (NewRepublisher seed).
Proof.
  intro seed; unfold Inv, pending_fresh, buffer_defined, tracks; simpl.
  intuition discriminate.
Qed.

Lemma exec_pending_fresh : forall es s0 s tr,
  pending_fresh s0 -> exec s0 es = Some (s, tr) -> pending_fresh s.
Proof.
  induction es as [|e es IH]; intros s0 s tr Hf H; simpl in H.
  - injection H as <- <-; auto.
  - destruct (step s0 e) as [[s1 o1]|] eqn:E1; [|discriminate].
    destruct (exec s1 es) as [[s2 o2]|] eqn:E2; [|discriminate].
    injection H as <- <-. eapply IH; [|eauto].
    destruct e; simpl in E1.
    + injection E1 as <- <-; destruct s0; unfold Update in *;
        destruct update0; exact Hf.
    + injection E1 as <- <-; destruct s0; exact Hf.
    + eapply iter_pending_fresh; eauto.
Qed.

End RepubFacts.

Module RepubClaims.
Import Repub RepubSpec RepubFacts.

Lemma iter_pub_no_update : forall s sel ok s' obs,
  update s = None -> run_iter s sel ok = Some (s', obs) ->
  pub_values obs = [] \/ pub_values obs = [toPublish s].
Proof.
  intros [lp tp w q l u ca st od] sel ok s' obs Hu H.
  simpl in Hu; subst u. iter_cases H; finish.
Qed.

Lemma exec_receipts : forall ok vs s s' obs,
  stopped s = false -> cancelled s = false ->
  exec s (receipts ok vs) = Some (s', obs) ->
  pub_values obs = [] /\ stopped s' = false /\ cancelled s' = false /\
  (vs = [] -> s' = s) /\
  (vs <> [] -> update s' = None /\
               (toPublish s' = Undef \/ toPublish s' = last vs Undef)).
Proof.
  intros ok; induction vs as [|v vs IH]; intros s s' obs Hs Hc H.
  - simpl in H; injection H as <- <-; simpl; intuition congruence.
  - simpl in H.
    destruct (run_iter (Update v s) SelUpdate ok) as [[s1 o1]|] eqn:E1;
      [|discriminate].
    destruct (exec s1 (receipts ok vs)) as [[s2 o2]|] eqn:E2; [|discriminate].
    injection H as <- <-.
    assert (H1 : pub_values o1 = [] /\ stopped s1 = false /\
                 cancelled s1 = false /\ update s1 = None /\
                 (toPublish s1 = Undef \/ toPublish s1 = v)).
    { destruct s as [lp tp w q l u ca st od]; simpl in Hs, Hc; subst.
      unfold Update in E1; simpl in E1; destruct u;
        iter_cases E1; finish. }
    destruct H1 as [P1 [S1 [C1 [U1 T1]]]].
    destruct (IH s1 s2 o2 S1 C1 E2) as [P2 [S2 [C2 [N2 L2]]]].
    rewrite pub_values_app, P1, P2.
    split; [reflexivity|]; split; [exact S2|]; split; [exact C2|].
    split; [discriminate|]. intros _.
    destruct vs as [|v' vs'].
    + rewrite (N2 eq_refl); simpl; tauto.
    + replace (last (v :: v' :: vs') Undef) with (last (v' :: vs') Undef)
        by reflexivity.
      apply L2; discriminate.
Qed.

Lemma exec_once_done : forall es s s' tr,
  exec s es = Some (s', tr) -> once_done s' = once_done s.
Proof.
  induction es as [|e es IH]; intros s s' tr H; simpl in H.
  - injection H as <- <-; reflexivity.
  - destruct (step s e) as [[s1 o1]|] eqn:E1; [|discriminate].
    destruct (exec s1 es) as [[s2 o2]|] eqn:E2; [|discriminate].
    injection H as <- <-. rewrite (IH _ _ _ E2).
    destruct e; simpl in E1.
    + injection E1 as <- <-; destruct s; unfold Update; simpl;
        destruct update0; reflexivity.
    + injection E1 as <- <-; reflexivity.
    + eapply iter_once_done; eauto.
Qed.


Lemma receipt_pending : forall s v ok s2 obs2,
  update s = Some v -> run_iter s SelUpdate ok = Some (s2, obs2) ->
  stopped s2 = true \/
  (update s2 = None /\ (toPublish s2 = Undef \/ toPublish s2 = v)).
Proof.
  intros [lp tp w q l u ca st od] v ok s2 obs2 Hu H; simpl in Hu; subst.
  iter_cases H; finish.
Qed.

Lemma iter_no_pending : forall s sel ok s' obs,
  update s = None -> toPublish s = Undef ->
  run_iter s sel ok = Some (s', obs) -> pub_values obs = [].
Proof.
  intros [lp tp w q l u ca st od] sel ok s' obs Hu Ht H; simpl in *; subst.
  iter_cases H; finish.
Qed.

(** C1 (counterexample): with [cidA] published and [cidB] pending, the loop
    receives [cidA]; the pending [cidB] is dropped, not preserved, and no
    later iteration publishes it. *)
Lemma update_same_keeps_pending_counterexample :
  exists s,
    exec (NewRepublisher cidA)
      [EUpdate cidB; ELoop SelUpdate true; EUpdate cidA; ELoop SelUpdate true]
    = Some (s, [Recv cidB; Recv cidA]) /\
    toPublish s = Undef /\
    (forall sel ok s' obs, run_iter s sel ok = Some (s', obs) ->
       pub_values obs = []).
Proof.
  eexists; split; [cbv; reflexivity|]; split; [cbv; reflexivity|].
  intros sel ok s' obs H; destruct sel; simpl in H;
    try discriminate; injection H as <- <-; reflexivity.
Qed.

(** C1 (as amended): when the loop receives an update equal to
    [lastPublished], [toPublish] is cleared to [Undef] whatever was pending,
    both timers are stopped, nothing is published, and a waiter kept from a
    failed attempt is released. *)
Theorem update_same_clears_pending : forall s v ok,
  stopped s = false -> cancelled s = false ->
  update s = Some v -> v = lastPublished s ->
  run_iter s SelUpdate ok =
  Some (mkState (lastPublished s) Undef None false false None false false
          (once_done s),
        Recv v :: match waiter s with Some w => [Release w] | None => [] end).
Proof.
  intros [lp tp w q l u ca st od] v ok Hs Hc Hu Hv; simpl in *; subst.
  unfold run_iter, cleanup; simpl. rewrite Equals_refl; simpl.
  destruct w; reflexivity.
Qed.

Lemma update_same_clears_pending_witness :
  stopped (Update cidA s_pendingB) = false /\
  cancelled (Update cidA s_pendingB) = false /\
  update (Update cidA s_pendingB) = Some cidA /\
  cidA = lastPublished (Update cidA s_pendingB) /\
  run_iter (Update cidA s_pendingB) SelUpdate true =
  Some (mkState cidA Undef None false false None false false false,
        [Recv cidA]).
Proof.
  split; [reflexivity|]; split; [reflexivity|]; split; [reflexivity|].
  split; [reflexivity|].
  exact (update_same_clears_pending (Update cidA s_pendingB) cidA true
           eq_refl eq_refl eq_refl eq_refl).
Defined.


(** C2: a failed call of [pubfunc] leaves [toPublish] and [lastPublished]
    as they were, arms the long timer only (the short one is stopped), and
    releases no waiter; if the loop then receives a newer update, the next
    iteration calls [pubfunc] with that value only. *)
Theorem publish_failure_retries_latest : forall s sel ok c s1 obs1,
  run_iter s sel ok = Some (s1, obs1) -> In (Pub c false) obs1 ->
  (toPublish s1 = c /\ Defined c = true /\
   lastPublished s1 = lastPublished s /\
   longer s1 = true /\ quick s1 = false /\
   (forall w, ~ In (Release w) obs1)) /\
  (forall v ok1 s2 obs2 sel3 ok3 s3 obs3,
     run_iter (Update v s1) SelUpdate ok1 = Some (s2, obs2) ->
     run_iter s2 sel3 ok3 = Some (s3, obs3) ->
     pub_values obs3 = [] \/ pub_values obs3 = [v]).
Proof.
  intros s sel ok c s1 obs1 H Hin. split.
  - destruct s as [lp tp w q l u ca st od].
    iter_cases H; rewrite ?in_app_iff in *; simpl in *; intuition congruence.
  - intros v ok1 s2 obs2 sel3 ok3 s3 obs3 H2 H3.
    destruct (receipt_pending (Update v s1) v ok1 s2 obs2) as [S|[U [T|T]]];
      [destruct s1 as [? ? ? ? ? u ? ? ?]; unfold Update; destruct u; reflexivity
      |exact H2| | |].
    + destruct s2; simpl in S; subst; discriminate H3.
    + left; eapply iter_no_pending; eauto.
    + rewrite <- T; eapply iter_pub_no_update; eauto.
Qed.

Lemma publish_failure_retries_latest_witness :
  run_iter s_pendingB SelQuick false = Some (s_failedB, [Pub cidB false]) /\
  In (Pub cidB false) [Pub cidB false] /\
  toPublish s_failedB = cidB /\ lastPublished s_failedB = cidA /\
  longer s_failedB = true /\ quick s_failedB = false.
Proof.
  split; [reflexivity|]; split; [left; reflexivity|].
  destruct (publish_failure_retries_latest s_pendingB SelQuick false cidB
              s_failedB [Pub cidB false] eq_refl (or_introl eq_refl))
    as [[T [_ [L [Lg [Q _]]]]] _].
  repeat split; assumption.
Defined.


(** C3: receiving an update that differs from [lastPublished] resets the
    long timer only when nothing was pending, always resets the short
    timer, and makes the value the new [toPublish]; a burst of such
    receptions publishes nothing, and the iteration after it publishes at
    most once, with the last value of the burst. *)
Theorem update_coalesces : (forall s v ok,
  stopped s = false -> cancelled s = false ->
  update s = Some v -> v <> lastPublished s ->
  run_iter s SelUpdate ok =
  Some (mkState (lastPublished s) v (waiter s) true
          (if Defined (toPublish s) then longer s else true) None false false
          (once_done s),
        [Recv v])) /\
  (forall s ok vs s' obs sel ok2 s'' obs2,
  stopped s = false -> cancelled s = false -> vs <> [] ->
  exec s (receipts ok vs) = Some (s', obs) ->
  run_iter s' sel ok2 = Some (s'', obs2) ->
  pub_values obs = [] /\
  (pub_values obs2 = [] \/ pub_values obs2 = [last vs Undef])).
Proof.
  split.
  - intros [lp tp w q l u ca st od] v ok Hs Hc Hu Hv; simpl in *; subst.
    unfold run_iter; simpl.
    replace (Equals lp v) with false by (symmetry; apply Equals_false; auto).
    reflexivity.
  - intros s ok vs s' obs sel ok2 s'' obs2 Hs Hc Hne Hx Hi.
    destruct (exec_receipts ok vs s s' obs Hs Hc Hx) as [P [_ [_ [_ L]]]].
    destruct (L Hne) as [U [T|T]].
    + split; [exact P|]. left; eapply iter_no_pending; eauto.
    + split; [exact P|]. rewrite <- T; eapply iter_pub_no_update; eauto.
Qed.

Lemma update_coalesces_witness :
  exists s' obs s'' obs2,
    exec (NewRepublisher cidA) (receipts true [cidB; cidC]) = Some (s', obs) /\
    run_iter s' SelQuick true = Some (s'', obs2) /\
    pub_values obs = [] /\
    (pub_values obs2 = [] \/ pub_values obs2 = [cidC]).
Proof.
  do 4 eexists.
  split; [cbv; reflexivity|]. split; [cbv; reflexivity|].
  exact (proj2 update_coalesces (NewRepublisher cidA) true [cidB; cidC] _ _
           SelQuick true _ _ eq_refl eq_refl ltac:(discriminate)
           ltac:(cbv; reflexivity) ltac:(cbv; reflexivity)).
Defined.


(** C4: from any state reached by a schedule whose updates carry defined
    CIDs, an iteration that releases a waiter has had no failed [pubfunc]
    call, leaves nothing pending, and has as [lastPublished] the latest
    value received, which is the seed or a value [pubfunc] accepted; it
    either called [pubfunc] successfully or called nothing.  A [WaitPub]
    arriving when nothing is pending and no new value is buffered is
    released in the same iteration without a call of [pubfunc]. *)
Theorem waiter_released_only_after_success : forall seed es s tr,
  updates_defined es = true ->
  exec (NewRepublisher seed) es = Some (s, tr) ->
  (forall sel ok s' obs w,
     run_iter s sel ok = Some (s', obs) -> In (Release w) obs ->
     (forall c, ~ In (Pub c false) obs) /\
     toPublish s' = Undef /\
     lastPublished s' = latest seed (tr ++ obs) /\
     (In (Pub (lastPublished s') true) obs \/ pub_values obs = []) /\
     (lastPublished s' = seed \/ In (Pub (lastPublished s') true) (tr ++ obs))) /\
  (forall w ok,
     stopped s = false -> cancelled s = false -> toPublish s = Undef ->
     (update s = None \/ update s = Some (lastPublished s)) ->
     exists s' obs, run_iter s (SelImmediate w) ok = Some (s', obs) /\
       In (Release w) obs /\ pub_values obs = []).
Proof.
  intros seed es s tr Hd Hx.
  pose proof (exec_Inv es seed [] _ s tr (Inv_init seed) Hd Hx) as HI.
  simpl in HI. destruct HI as [Hf [Hb [Ht Hp]]].
  split.
  - intros sel ok s' obs w Hi Hr.
    destruct (iter_release s sel ok s' obs w Hi Hr) as [T [NF P]].
    pose proof (iter_tracks _ _ _ _ _ _ Hf Hb Ht Hi) as Ht'.
    unfold tracks in Ht'; rewrite T in Ht'; simpl in Ht'.
    split; [exact NF|]. split; [exact T|].
    split; [rewrite latest_app; symmetry; exact Ht'|].
    split; [exact P|].
    rewrite in_app_iff.
    destruct (iter_published _ _ _ _ _ Hi) as [E|E]; [rewrite E|]; tauto.
  - intros w ok Hs Hc Ht0 Hu.
    destruct s as [lp tp w0 q l u ca st od]; simpl in *; subst.
    destruct Hu as [Hu|Hu]; subst;
      unfold run_iter, cleanup; simpl; rewrite ?Equals_refl; simpl.
    + destruct (Equals lp Undef); simpl; eexists; eexists;
        (split; [reflexivity|]); simpl; auto.
    + eexists; eexists; (split; [reflexivity|]); simpl; auto.
Qed.

Lemma waiter_released_only_after_success_witness :
  exists s tr s' obs,
    updates_defined [EUpdate cidB; ELoop SelUpdate true] = true /\
    exec (NewRepublisher cidA) [EUpdate cidB; ELoop SelUpdate true]
      = Some (s, tr) /\
    run_iter s (SelImmediate 7) true = Some (s', obs) /\
    In (Release 7) obs /\
    toPublish s' = Undef /\ lastPublished s' = latest cidA (tr ++ obs).
Proof.
  do 4 eexists.
  split; [reflexivity|]. split; [cbv; reflexivity|].
  split; [cbv; reflexivity|]. split; [simpl; tauto|].
  destruct (waiter_released_only_after_success cidA
              [EUpdate cidB; ELoop SelUpdate true] _ _ eq_refl
              ltac:(cbv; reflexivity)) as [P _].
  destruct (P (SelImmediate 7) true _ _ 7 ltac:(cbv; reflexivity)
              ltac:(simpl; tauto)) as [_ [T [L _]]].
  split; assumption.
Defined.


(** C5 (counterexample): [cidA] is published and [cidB] pending when
    [Update(cidA)] is submitted; the timer publishes [cidB] before the loop
    receives [cidA], which is then no longer the last published value and is
    published again. *)
Lemma resubmit_published_counterexample :
  exists s1 o1 s o,
    exec (NewRepublisher cidA) [EUpdate cidB; ELoop SelUpdate true]
      = Some (s1, o1) /\
    lastPublished s1 = cidA /\
    exec s1 [EUpdate cidA; ELoop SelQuick true; ELoop SelUpdate true;
             ELoop SelQuick true] = Some (s, o) /\
    pub_values o = [cidB; cidA] /\ In (Pub cidA true) o.
Proof.
  do 4 eexists; split; [cbv; reflexivity|]; split; [cbv; reflexivity|].
  split; [cbv; reflexivity|]; split; [cbv; reflexivity|]; simpl; tauto.
Qed.

(** C5 (as amended): [pubfunc] is never called with the value that is
    [lastPublished] at that moment; in particular an update equal to
    [lastPublished] when the loop receives it (as an update or drained by a
    [WaitPub]) leads to no call. *)
Theorem published_value_not_republished : forall seed es s tr sel ok s' obs,
  exec (NewRepublisher seed) es = Some (s, tr) ->
  run_iter s sel ok = Some (s', obs) ->
  (forall c, In c (pub_values obs) -> c <> lastPublished s) /\
  (update s = Some (lastPublished s) ->
   (sel = SelUpdate \/ exists w, sel = SelImmediate w) ->
   pub_values obs = []).
Proof.
  intros seed es s tr sel ok s' obs Hx Hi.
  assert (Hf : pending_fresh s).
  { eapply exec_pending_fresh; [|exact Hx].
    unfold pending_fresh; simpl; discriminate. }
  destruct s as [lp tp w q l u ca st od]; unfold pending_fresh in Hf;
    simpl in *.
  iter_cases Hi; finish;
    repeat match goal with H : exists _, _ |- _ => destruct H end;
    try congruence.
Qed.

Lemma published_value_not_republished_witness :
  exists s tr s' obs,
    exec (NewRepublisher cidA) [EUpdate cidB; ELoop SelUpdate true]
      = Some (s, tr) /\
    run_iter s SelQuick true = Some (s', obs) /\
    In cidB (pub_values obs) /\ cidB <> lastPublished s.
Proof.
  do 4 eexists.
  split; [cbv; reflexivity|]. split; [cbv; reflexivity|].
  split; [simpl; tauto|].
  destruct (published_value_not_republished cidA
              [EUpdate cidB; ELoop SelUpdate true] _ _ SelQuick true _ _
              ltac:(cbv; reflexivity) ltac:(cbv; reflexivity)) as [P _].
  apply P; simpl; tauto.
Defined.


(** C10: [Close] runs the body of [once] (a [WaitPub], then the
    cancellation of [run]) only on its first call; every later call, after
    any schedule, performs nothing before waiting.  A call returns only
    when [rp.stopped] is closed or its context is done, and can return
    [nil] exactly when [rp.stopped] is closed.  After the first call the
    next iteration of [run] returns, after which [Close] can return [nil]. *)
Theorem close_once_then_wait : forall ctxDone s,
  let '(s1, acts, res) := Close.Close ctxDone s in
  once_done s1 = true /\
  (once_done s = false ->
   acts = [Close.DoWaitPub; Close.DoCancel] /\ cancelled s1 = true /\
   (stopped s1 = false -> forall sel ok,
      run_iter s1 sel ok = Some (set_stopped s1, []) /\
      In None (Close.wait_stopped ctxDone (set_stopped s1)))) /\
  (once_done s = true -> acts = [] /\ s1 = s) /\
  (forall r, In r res -> stopped s1 = true \/ ctxDone = true) /\
  (In None res <-> stopped s1 = true) /\
  (forall es s2 tr ctx2, exec s1 es = Some (s2, tr) ->
     let '(s3, acts2, _) := Close.Close ctx2 s2 in acts2 = [] /\ s3 = s2).
Proof.
  intros ctxDone [lp tp w q l u ca st od].
  unfold Close.Close, Close.once_Do, Close.wait_stopped; simpl.
  destruct od; simpl; (split; [reflexivity|]).
  - split; [discriminate|]. split; [auto|].
    split; [|split].
    + intros r Hr; apply in_app_iff in Hr;
        destruct ctxDone, st; simpl in *; intuition congruence.
    + destruct ctxDone, st; simpl; intuition congruence.
    + intros es s2 tr ctx2 Hx.
      pose proof (exec_once_done _ _ _ _ Hx) as E; simpl in E.
      destruct s2; simpl in *; subst; auto.
  - split.
    + intros _; split; [reflexivity|]; split; [reflexivity|].
      intros Hst sel ok; simpl in Hst; subst.
      split; [reflexivity|]. rewrite in_app_iff; simpl; auto.
    + split; [discriminate|]. split; [|split].
      * intros r Hr; apply in_app_iff in Hr;
          destruct ctxDone, st; simpl in *; intuition congruence.
      * destruct ctxDone, st; simpl; intuition congruence.
      * intros es s2 tr ctx2 Hx.
        pose proof (exec_once_done _ _ _ _ Hx) as E; simpl in E.
        destruct s2; simpl in *; subst; auto.
Qed.

Lemma close_once_then_wait_witness :
  once_done (NewRepublisher cidA) = false /\
  snd (fst (Close.Close false (NewRepublisher cidA)))
    = [Close.DoWaitPub; Close.DoCancel].
Proof.
  split; [reflexivity|].
  pose proof (close_once_then_wait false (NewRepublisher cidA)) as H.
  simpl in H. destruct H as [_ [H _]].
  exact (proj1 (H eq_refl)).
Defined.


End RepubClaims.

Module RepubExtraFacts.
Import Repub RepubSpec LoopSpec RepubFacts.

Lemma Update_set_update : forall c s, Update c s = set_update s (Some c).
Proof. intros c [? ? ? ? ? [|] ? ? ?]; reflexivity. Qed.

Lemma iter_timers : forall s sel ok s' obs,
  timers_ok s -> run_iter s sel ok = Some (s', obs) -> timers_ok s'.
Proof.
  intros [lp tp w q l u ca st od] sel ok s' obs Ht H.
  unfold timers_ok in *; iter_cases H; finish.
Qed.

Lemma exec_timers : forall es s0 s tr,
  timers_ok s0 -> exec s0 es = Some (s, tr) -> timers_ok s.
Proof.
  induction es as [|e es IH]; intros s0 s tr Ht H; simpl in H.
  - injection H as <- <-; auto.
  - destruct (step s0 e) as [[s1 o1]|] eqn:E1; [|discriminate].
    destruct (exec s1 es) as [[s2 o2]|] eqn:E2; [|discriminate].
    injection H as <- <-. eapply IH; [|eauto].
    destruct e; simpl in E1.
    + injection E1 as <- <-; rewrite Update_set_update; destruct s0; exact Ht.
    + injection E1 as <- <-; destruct s0; exact Ht.
    + eapply iter_timers; eauto.
Qed.

Lemma iter_holds : forall c s sel ok s' obs,
  Defined c = true -> holds c s -> run_iter s sel ok = Some (s', obs) ->
  holds c s' /\ cancelled s' = cancelled s.
Proof.
  intros c [lp tp w q l u ca st od] sel ok s' obs Hc Hh H.
  unfold holds, tracks in *; simpl in Hh.
  destruct Hh as [Hu|[Hu Ht]]; subst u; iter_cases H; finish.
Qed.

Lemma exec_loops_holds : forall ls c s0 s tr,
  Defined c = true -> holds c s0 -> exec s0 (loops ls) = Some (s, tr) ->
  holds c s /\ cancelled s = cancelled s0.
Proof.
  induction ls as [|[sel ok] ls IH]; intros c s0 s tr Hc Hh H; simpl in H.
  - injection H as <- <-; auto.
  - destruct (run_iter s0 sel ok) as [[s1 o1]|] eqn:E1; [|discriminate].
    destruct (exec s1 (loops ls)) as [[s2 o2]|] eqn:E2; [|discriminate].
    injection H as <- <-.
    destruct (iter_holds c s0 sel ok s1 o1 Hc Hh E1) as [H1 C1].
    destruct (IH c s1 s2 o2 Hc H1 E2) as [H2 C2].
    split; [exact H2|congruence].
Qed.

Lemma immediate_enabled : forall s w ok,
  stopped s = false -> cancelled s = false ->
  run_iter s (SelImmediate w) ok <> None.
Proof.
  intros [lp tp w0 q l u ca st od] w ok Hs Hc; simpl in *; subst.
  unfold run_iter, cleanup; simpl; split_iter; discriminate.
Qed.

Lemma immediate_holds : forall c s w s' obs,
  Defined c = true -> holds c s ->
  stopped s = false -> cancelled s = false ->
  run_iter s (SelImmediate w) true = Some (s', obs) ->
  In (Release w) obs /\ lastPublished s' = c /\ toPublish s' = Undef /\
  (forall c', In c' (pub_values obs) -> c' = c).
Proof.
  intros c [lp tp w0 q l u ca st od] w s' obs Hc Hh Hs Hc' H.
  unfold holds, tracks in *; simpl in *; subst.
  destruct Hh as [Hu|[Hu Ht]]; subst u; iter_cases H;
    rewrite ?in_app_iff; simpl; finish.
Qed.

End RepubExtraFacts.

Module RepubExtras.
Import Repub RepubSpec LoopSpec RepubFacts RepubExtraFacts.

(** [run] calls [pubfunc] at most once per iteration, never with the
    undefined CID, and the outcome recorded is the one of that call. *)
Theorem pubfunc_defined_at_most_once : forall s sel ok s' obs,
  run_iter s sel ok = Some (s', obs) ->
  List.length (pub_values obs) <= 1 /\
  (forall c b, In (Pub c b) obs -> Defined c = true /\ b = ok).
Proof.
  intros [lp tp w q l u ca st od] sel ok s' obs H.
  iter_cases H; rewrite ?pub_values_app, ?in_app_iff; simpl;
    (split; [simpl; lia|]); intros c0 b0 Hin; simpl in Hin;
    intuition congruence.
Qed.

Lemma pubfunc_defined_at_most_once_witness :
  exists s' obs,
    run_iter s_pendingB SelQuick true = Some (s', obs) /\
    List.length (pub_values obs) <= 1 /\ Defined cidB = true.
Proof.
  do 2 eexists. split; [reflexivity|].
  destruct (pubfunc_defined_at_most_once s_pendingB SelQuick true _ _
              eq_refl) as [Hl Hp].
  split; [exact Hl|].
  exact (proj1 (Hp cidB true (or_introl eq_refl))).
Defined.

(** In every state [run] reaches, a pending value has the long timer armed
    and the short timer is armed only with the long one; so while the loop
    runs, the long timer's case is always ready for a pending value, and
    taking it calls [pubfunc] with that value. *)
Theorem pending_has_long_timer : forall seed es s tr,
  exec (NewRepublisher seed) es = Some (s, tr) ->
  (Defined (toPublish s) = true -> longer s = true) /\
  (quick s = true -> longer s = true) /\
  (stopped s = false -> cancelled s = false ->
   Defined (toPublish s) = true -> forall ok,
   exists s' obs, run_iter s SelLonger ok = Some (s', obs) /\
     pub_values obs = [toPublish s]).
Proof.
  intros seed es s tr H.
  assert (Ht : timers_ok s).
  { eapply exec_timers; [|exact H].
    unfold timers_ok; simpl; split; discriminate. }
  destruct Ht as [Hd Hq]. split; [exact Hd|]. split; [exact Hq|].
  intros Hs Hc HD ok. pose proof (Hd HD) as Hl.
  destruct s as [lp tp w q l u ca st od]; simpl in *; subst.
  unfold run_iter, cleanup; simpl; rewrite HD.
  destruct ok, w; do 2 eexists; split; reflexivity.
Qed.

Lemma pending_has_long_timer_witness :
  exists s tr s' obs,
    exec (NewRepublisher cidA) [EUpdate cidB; ELoop SelUpdate true;
                                ELoop SelQuick false] = Some (s, tr) /\
    longer s = true /\
    run_iter s SelLonger true = Some (s', obs) /\ pub_values obs = [cidB].
Proof.
  do 4 eexists. split; [cbv; reflexivity|].
  destruct (pending_has_long_timer cidA
              [EUpdate cidB; ELoop SelUpdate true; ELoop SelQuick false] _ _
              ltac:(cbv; reflexivity)) as [Hd [_ _]].
  split; [apply Hd; reflexivity|].
  split; reflexivity.
Defined.

(** [Update(cid.Undef)] is not filtered: when the loop receives it while a
    value is pending (and something was published before), the undefined
    CID replaces the pending value and re-arms the short timer, and the
    iteration that follows calls [pubfunc] with nothing. *)
Theorem update_undef_drops_pending : forall s ok,
  stopped s = false -> cancelled s = false ->
  update s = Some Undef -> Defined (lastPublished s) = true ->
  exists s', run_iter s SelUpdate ok = Some (s', [Recv Undef]) /\
    toPublish s' = Undef /\ update s' = None /\ quick s' = true /\
    (forall sel ok2 s'' obs, run_iter s' sel ok2 = Some (s'', obs) ->
       pub_values obs = []).
Proof.
  intros [lp tp w q l u ca st od] ok Hs Hc Hu Hd; simpl in *; subst.
  destruct lp as [|v d]; [discriminate|].
  eexists; split; [reflexivity|]; simpl.
  split; [reflexivity|]; split; [reflexivity|]; split; [reflexivity|].
  intros sel ok2 s'' obs H; eapply RepubClaims.iter_no_pending;
    [| |exact H]; reflexivity.
Qed.

Lemma update_undef_drops_pending_witness :
  exists s',
    run_iter (Update Undef s_pendingB) SelUpdate true
      = Some (s', [Recv Undef]) /\
    toPublish s' = Undef.
Proof.
  destruct (update_undef_drops_pending (Update Undef s_pendingB) true
              eq_refl eq_refl eq_refl eq_refl) as [s' [E [T _]]].
  exists s'; split; assumption.
Defined.

(** [run] keeps a single waiter: a [WaitPub] served while the waiter of an
    earlier one is still held (after a failed publish) replaces it, so the
    earlier waiter is neither closed in that iteration nor kept. *)
Theorem waitpub_drops_earlier_waiter : forall s w0 w ok s' obs,
  stopped s = false -> cancelled s = false ->
  waiter s = Some w0 -> w0 <> w ->
  run_iter s (SelImmediate w) ok = Some (s', obs) ->
  ~ In (Release w0) obs /\ waiter s' <> Some w0 /\
  (waiter s' = None <-> In (Release w) obs).
Proof.
  intros [lp tp w1 q l u ca st od] w0 w ok s' obs Hs Hc Hw Hne H.
  simpl in *; subst.
  iter_cases H; rewrite ?in_app_iff; simpl; intuition congruence.
Qed.

Lemma waitpub_drops_earlier_waiter_witness :
  exists tr s' obs,
    exec (NewRepublisher cidA)
      [EUpdate cidB; ELoop SelUpdate true; ELoop (SelImmediate 1) false]
      = Some (s_waiting1, tr) /\
    run_iter s_waiting1 (SelImmediate 2) true = Some (s', obs) /\
    ~ In (Release 1) obs /\ In (Release 2) obs.
Proof.
  do 3 eexists. split; [cbv; reflexivity|]. split; [reflexivity|].
  destruct (waitpub_drops_earlier_waiter s_waiting1 1 2 true _ _
              eq_refl eq_refl eq_refl ltac:(discriminate) eq_refl)
    as [N _].
  split; [exact N|simpl; tauto].
Defined.



(** The pattern of [Root.Close]: after [Update(c)] with a defined [c], and
    any iterations of the loop without another [Update], a [WaitPub] is
    served at once while the loop runs; when its [pubfunc] call succeeds
    (or none is needed) the waiter is closed with [c] as the last published
    value, nothing pending, and [pubfunc] called with [c] only. *)
Theorem update_then_waitpub_publishes : forall c s0 ls s tr w,
  Defined c = true -> cancelled s0 = false ->
  exec (Update c s0) (loops ls) = Some (s, tr) -> stopped s = false ->
  exists s' obs, run_iter s (SelImmediate w) true = Some (s', obs) /\
    In (Release w) obs /\ lastPublished s' = c /\ toPublish s' = Undef /\
    (forall c', In c' (pub_values obs) -> c' = c).
Proof.
  intros c s0 ls s tr w Hc Hc0 Hx Hs.
  assert (H0 : holds c (Update c s0)).
  { left; rewrite Update_set_update; reflexivity. }
  destruct (exec_loops_holds ls c _ s tr Hc H0 Hx) as [Hh Hcs].
  assert (Hca : cancelled s = false).
  { rewrite Hcs, Update_set_update; destruct s0; exact Hc0. }
  destruct (run_iter s (SelImmediate w) true) as [[s' obs]|] eqn:E;
    [|exfalso; exact (immediate_enabled s w true Hs Hca E)].
  exists s', obs; split; [reflexivity|].
  exact (immediate_holds c s w s' obs Hc Hh Hs Hca E).
Qed.

Lemma update_then_waitpub_publishes_witness :
  exists s tr s' obs,
    exec (Update cidC s_pendingB) (loops [(SelUpdate, true); (SelQuick, false)])
      = Some (s, tr) /\
    run_iter s (SelImmediate 5) true = Some (s', obs) /\
    lastPublished s' = cidC /\ In (Release 5) obs.
Proof.
  do 4 eexists. split; [cbv; reflexivity|]. split; [cbv; reflexivity|].
  destruct (update_then_waitpub_publishes cidC s_pendingB
              [(SelUpdate, true); (SelQuick, false)] _ _ 5 eq_refl eq_refl
              ltac:(cbv; reflexivity) ltac:(cbv; reflexivity))
    as [s' [obs [E [R [L _]]]]].
  cbv in E. injection E as <- <-. split; [exact L|exact R].
Defined.

(** [WaitPub] does not wait for the timers: with a value pending (distinct
    from [lastPublished]) and nothing buffered, serving it calls [pubfunc]
    with that value in the same iteration and stops both timers; on success
    the value becomes [lastPublished] and the waiter is closed, on failure
    the value stays pending, the long timer is re-armed and the waiter is
    kept. *)
Theorem waitpub_publishes_now : forall s w ok,
  stopped s = false -> cancelled s = false -> update s = None ->
  Defined (toPublish s) = true -> toPublish s <> lastPublished s ->
  run_iter s (SelImmediate w) ok =
  Some (if ok
        then mkState (toPublish s) Undef None false false None false false
               (once_done s)
        else mkState (lastPublished s) (toPublish s) (Some w) false true None
               false false (once_done s),
        Pub (toPublish s) ok :: (if ok then [Release w] else [])).
Proof.
  intros [lp tp w0 q l u ca st od] w ok Hs Hc Hu HD Hne; simpl in *; subst.
  unfold run_iter, cleanup; simpl.
  replace (Equals lp tp) with false
    by (symmetry; apply Equals_false; intro E; apply Hne; auto).
  simpl; rewrite HD; destruct ok; reflexivity.
Qed.

Lemma waitpub_publishes_now_witness :
  run_iter s_failedB (SelImmediate 3) true =
  Some (mkState cidB Undef None false false None false false false,
        [Pub cidB true; Release 3]).
Proof.
  exact (waitpub_publishes_now s_failedB 3 true eq_refl eq_refl eq_refl
           eq_refl ltac:(discriminate)).
Defined.

End RepubExtras.

Module NodeClaims.
Import NodeSpec.

(** C6: [Root.updateChildEntry] hands the child's CID to the republisher
    only after [Add] stored the child's node; when [Add] fails its error is
    returned and the root (with its republisher) is left unchanged. *)
Theorem updateChildEntry_stores_before_update :
  forall (Add : Store -> Node -> result Store),
  (forall st n st', Add st n = Ok st' -> In n st') ->
  forall kr c,
  match Root.updateChildEntry Add kr c with
  | (kr', None) =>
      exists st', Add (Root.dagService (Root.dir kr)) (Root.ChildNode c) = Ok st' /\
      Root.dagService (Root.dir kr') = st' /\
      In (Root.ChildNode c) (Root.dagService (Root.dir kr')) /\
      Root.repub kr' =
        option_map (Repub.Update (NodeCid (Root.ChildNode c))) (Root.repub kr) /\
      (forall rp, Root.repub kr' = Some rp ->
         Repub.update rp = Some (NodeCid (Root.ChildNode c)))
  | (kr', Some e) =>
      Add (Root.dagService (Root.dir kr)) (Root.ChildNode c) = Error e /\ kr' = kr
  end.
Proof.
  intros Add Hadd [d rp] c; unfold Root.updateChildEntry; simpl.
  destruct (Add (Root.dagService d) (Root.ChildNode c)) as [st|e] eqn:E.
  - destruct rp as [rp|]; simpl; exists st; repeat split; auto;
      try (eapply Hadd; eauto).
    + intros rp' H; injection H as <-.
      destruct rp as [? ? ? ? ? u ? ? ?]; unfold Repub.Update; simpl.
      destruct u; reflexivity.
    + discriminate.
  - split; reflexivity.
Qed.

Lemma updateChildEntry_stores_before_update_witness :
  (forall st n st', add_ok st n = Ok st' -> In n st') /\
  In (RawNode RepubSpec.cidB)
    (Root.dagService (Root.dir (fst (Root.updateChildEntry add_ok
       (Root.mkRoot (Root.mkDirectory "root"
                       (ProtoNode RepubSpec.cidA (UnixfsData TDirectory)) [])
                    (Some (Repub.NewRepublisher RepubSpec.cidA)))
       (Root.mkChild "x" (RawNode RepubSpec.cidB)))))).
Proof.
  assert (Hadd : forall st n st', add_ok st n = Ok st' -> In n st').
  { intros st n st' H; injection H as <-; left; reflexivity. }
  split; [exact Hadd|].
  pose proof (updateChildEntry_stores_before_update add_ok Hadd
     (Root.mkRoot (Root.mkDirectory "root"
                     (ProtoNode RepubSpec.cidA (UnixfsData TDirectory)) [])
                  (Some (Repub.NewRepublisher RepubSpec.cidA)))
     (Root.mkChild "x" (RawNode RepubSpec.cidB))) as H.
  simpl in H. destruct H as [st' [_ [_ [I _]]]]. exact I.
Defined.


(** C7: [NewRoot] fails exactly when the node's data is not a UnixFS
    directory (or HAMT shard); on success it has a republisher, seeded with
    the node's CID as last published, exactly when a publish callback is
    given. *)
Theorem NewRoot_directory_and_seed : forall ds c d pf,
  match Root.NewRoot ds c d pf with
  | Error _ => forall t, FSNodeFromBytes d = Ok t -> Root.is_directory_type t = false
  | Ok r =>
      (exists t, FSNodeFromBytes d = Ok t /\ Root.is_directory_type t = true) /\
      Root.repub r =
        match pf with Some _ => Some (Repub.NewRepublisher c) | None => None end /\
      (forall rp, Root.repub r = Some rp -> Repub.lastPublished rp = c)
  end.
Proof.
  intros ds c [t|] pf; unfold Root.NewRoot, Root.NewRoot_with; simpl.
  - destruct t; simpl; try (intros t' H; injection H as <-; reflexivity);
      (split; [eexists; split; reflexivity|]);
      destruct pf; simpl; (split; [reflexivity|]);
      intros rp H; try discriminate; injection H as <-; reflexivity.
  - intros t H; discriminate.
Qed.

Lemma NewRoot_directory_and_seed_witness :
  exists r,
    Root.NewRoot [] RepubSpec.cidA (UnixfsData THAMTShard)
      (Some (fun _ => true)) = Ok r /\
    (forall rp, Root.repub r = Some rp -> Repub.lastPublished rp = RepubSpec.cidA).
Proof.
  eexists; split; [cbv; reflexivity|].
  pose proof (NewRoot_directory_and_seed [] RepubSpec.cidA
                (UnixfsData THAMTShard) (Some (fun _ => true))) as H.
  simpl in H. exact (proj2 (proj2 H)).
Defined.


(** C8 (counterexample): opening for reading a file whose ProtoNode data
    is not a UnixFS node fails with the decoding error, which is neither the
    mode error nor an unsupported-type error. *)
Lemma Open_undecodable_counterexample :
  File.Open NewDagModifier_unixfs (file_of (ProtoNode RepubSpec.cidA BadData))
    (File.mkFlags true false false)
  = Some (file_of (ProtoNode RepubSpec.cidA BadData), Error ErrFSNodeFromBytes) /\
  ErrFSNodeFromBytes <> ErrNeitherReadNorWrite /\
  ErrFSNodeFromBytes <> ErrUnsupportedFsnode /\
  ErrFSNodeFromBytes <> ErrSymlink.
Proof. split; [reflexivity|]; repeat split; discriminate. Qed.

(** C8 (as amended): without Read or Write, [Open] fails at once with the
    mode error.  Otherwise, when it returns: an error comes from an
    undecodable ProtoNode, a symlink ProtoNode, a ProtoNode of another type
    than file or raw, or from [NewDagModifier] on a node that passed the
    type check (nodes that are not ProtoNodes are not type-checked); a
    descriptor is returned only for a node that passed the check. *)
Theorem Open_outcomes : forall ndm fi flags,
  (File.Read flags = false -> File.Write flags = false ->
   File.Open ndm fi flags = Some (fi, Error ErrNeitherReadNorWrite)) /\
  (forall fi' r, File.Open ndm fi flags = Some (fi', r) ->
   match r with
   | Error e =>
       (File.Read flags = false /\ File.Write flags = false /\
        e = ErrNeitherReadNorWrite) \/
       ((File.Read flags = true \/ File.Write flags = true) /\
        ((exists c, File.node fi = ProtoNode c BadData /\ e = ErrFSNodeFromBytes) \/
         (exists c, File.node fi = ProtoNode c (UnixfsData TSymlink) /\ e = ErrSymlink) \/
         (exists c t, File.node fi = ProtoNode c (UnixfsData t) /\
            t <> TFile /\ t <> TRaw /\ t <> TSymlink /\ e = ErrUnsupportedFsnode) \/
         (passes_type_check (File.node fi) = true /\
          ndm (File.node fi) (File.dagService fi) = Error e)))
   | Ok fd =>
       (File.Read flags = true \/ File.Write flags = true) /\
       passes_type_check (File.node fi) = true /\
       (exists dm, ndm (File.node fi) (File.dagService fi) = Ok dm) /\
       File.fd_flags fd = flags /\
       File.dm_RawLeaves (File.fd_mod fd) = File.RawLeaves fi /\
       File.fd_state fd = File.stateCreated
   end).
Proof.
  intros ndm [nm nd ds [wl rd] rl] [rf wf sf]; simpl.
  split.
  - intros -> ->; reflexivity.
  - intros fi' r H.
    unfold File.Open, File.open_body, File.GetNode in H; simpl in H.
    destruct wf, rf; simpl in H;
      try (injection H as <- <-; left; auto; fail);
      repeat match goal with
      | H : (if ?b then _ else _) = _ |- _ => destruct b eqn:?
      end; try discriminate;
      destruct nd as [c [t|]|c|c]; try destruct t; simpl in H;
      destruct (ndm _ ds) as [dm|e] eqn:En; simpl in H;
      injection H as <- <-; simpl;
      first
        [ solve [ right; split; [auto|];
                  first [ left; eexists; split; reflexivity
                        | right; left; eexists; split; reflexivity
                        | right; right; left; do 2 eexists;
                          repeat split; discriminate
                        | right; right; right; split; reflexivity ] ]
        | solve [ repeat split; auto; eexists; reflexivity ] ].
Qed.

Lemma Open_outcomes_witness :
  File.Open NewDagModifier_unixfs
    (file_of (ProtoNode RepubSpec.cidA (UnixfsData TSymlink)))
    (File.mkFlags true false false)
  = Some (file_of (ProtoNode RepubSpec.cidA (UnixfsData TSymlink)),
          Error ErrSymlink) /\
  exists c, File.node (file_of (ProtoNode RepubSpec.cidA (UnixfsData TSymlink)))
            = ProtoNode c (UnixfsData TSymlink).
Proof.
  split; [reflexivity|].
  destruct (Open_outcomes NewDagModifier_unixfs
              (file_of (ProtoNode RepubSpec.cidA (UnixfsData TSymlink)))
              (File.mkFlags true false false)) as [_ H].
  pose proof (H _ _ eq_refl) as H'; simpl in H'.
  destruct H' as [[D _]|[_ [[c [E _]]|[[c [E _]]|[[c [t [E [_ [_ [NS _]]]]]]|[D _]]]]]];
    try discriminate; try (eexists; exact E).
  injection E as _ <-; contradiction.
Defined.


(** C9: [NewFile] always succeeds, and the file has [RawLeaves] set exactly
    when the version of the node's CID prefix is above 0. *)
Theorem NewFile_RawLeaves : forall nm nd ds,
  exists f, File.NewFile nm nd ds = Ok f /\
  (File.RawLeaves f = true <-> (0 < Prefix_Version (NodeCid nd))%N).
Proof.
  intros nm nd ds; unfold File.NewFile.
  destruct (0 <? Prefix_Version (NodeCid nd))%N eqn:E; eexists;
    (split; [reflexivity|]); simpl.
  - apply N.ltb_lt in E; tauto.
  - apply N.ltb_ge in E; split; [discriminate|lia].
Qed.

End NodeClaims.

Module NodeExtras.
Import NodeSpec.









(** [File.Sync] never fails, and it waits for the descriptors: it blocks
    on a file returned by a successful [Open] (whose descriptor still holds
    [desclock]), and on a file whose lock is free it returns nil at once
    and leaves the file as it was. *)
Theorem Sync_waits_for_descriptors :
  (forall ndm fi flags fi' fd,
     File.Open ndm fi flags = Some (fi', Ok fd) -> File.FileSync fi' = None) /\
  (forall fi, File.desclock fi = File.mkRWMutex false 0 ->
     File.FileSync fi = Some (fi, None)) /\
  (forall fi fi' r, File.FileSync fi = Some (fi', r) -> fi' = fi /\ r = None).
Proof.
  split; [|split].
  - intros ndm [nm nd ds [wl rd] rl] [rf wf sf] fi' fd H;
      unfold File.Open in H; simpl in H.
    destruct wf; simpl in H.
    + destruct (wl || Nat.ltb 0 rd); [discriminate|].
      destruct (File.open_body ndm _ _); [|discriminate].
      injection H as <- _; reflexivity.
    + destruct rf; [|discriminate]. destruct wl; [discriminate|].
      destruct (File.open_body ndm _ _); [|discriminate].
      injection H as <- _; reflexivity.
  - intros [nm nd ds dl rl] E; simpl in E; subst; reflexivity.
  - intros [nm nd ds [wl rd] rl] fi' r H; unfold File.FileSync in H;
      simpl in H.
    destruct (wl || Nat.ltb 0 rd); [discriminate|].
    injection H as <- <-; split; reflexivity.
Qed.

Lemma Sync_waits_for_descriptors_witness :
  exists fi' fd,
    File.Open NewDagModifier_unixfs (file_of (RawNode RepubSpec.cidC))
      (File.mkFlags true false false) = Some (fi', Ok fd) /\
    File.FileSync fi' = None /\
    File.FileSync (file_of (RawNode RepubSpec.cidC))
      = Some (file_of (RawNode RepubSpec.cidC), None).
Proof.
  do 2 eexists. split; [reflexivity|].
  destruct Sync_waits_for_descriptors as [H1 [H2 _]].
  split; [exact (H1 NewDagModifier_unixfs (file_of (RawNode RepubSpec.cidC))
                   (File.mkFlags true false false) _ _ eq_refl)|].
  exact (H2 (file_of (RawNode RepubSpec.cidC)) eq_refl).
Defined.

(** A descriptor built by [Open] carries the file's [RawLeaves]. *)
Lemma open_body_RawLeaves : forall ndm fi flags fd,
  File.open_body ndm fi flags = Ok fd ->
  File.dm_RawLeaves (File.fd_mod fd) = File.RawLeaves fi.
Proof.
  intros ndm [nm nd ds dl rl] flags fd H;
    unfold File.open_body, File.GetNode in H; simpl in H.
  destruct nd as [c [[]|]|c|c]; simpl in H; try discriminate;
    destruct (ndm _ ds); try discriminate; injection H as <-; reflexivity.
Qed.

(** A file fresh from [NewFile] can be opened without blocking, in any
    mode, and a descriptor opened on it builds raw leaves exactly when the
    version of the node's CID is above 0. *)
Theorem NewFile_Open_RawLeaves : forall ndm nm nd ds f flags,
  File.NewFile nm nd ds = Ok f ->
  File.Open ndm f flags <> None /\
  (forall f' fd, File.Open ndm f flags = Some (f', Ok fd) ->
     File.dm_RawLeaves (File.fd_mod fd) = (0 <? Prefix_Version (NodeCid nd))%N).
Proof.
  intros ndm nm nd ds f [rf wf sf] H; unfold File.NewFile in H.
  assert (Hf : f = File.mkFile nm nd ds (File.mkRWMutex false 0)
                     (0 <? Prefix_Version (NodeCid nd))%N).
  { destruct (0 <? Prefix_Version (NodeCid nd))%N; injection H as <-;
      reflexivity. }
  subst f. unfold File.Open; simpl.
  split.
  - destruct wf, rf; simpl;
      repeat match goal with
      | |- context [match ?x with _ => _ end] => destruct x
      end; discriminate.
  - intros f' fd E.
    destruct wf; [|destruct rf]; simpl in E;
      try (injection E as _ E; discriminate E);
      destruct (File.open_body ndm _ _) as [fd0|e] eqn:Eb; try discriminate;
      injection E as _ <-; exact (open_body_RawLeaves _ _ _ _ Eb).
Qed.

Lemma NewFile_Open_RawLeaves_witness :
  exists f f' fd,
    File.NewFile "f" (RawNode RepubSpec.cidC) [] = Ok f /\
    File.Open NewDagModifier_unixfs f (File.mkFlags false true false)
      = Some (f', Ok fd) /\
    File.dm_RawLeaves (File.fd_mod fd) = true.
Proof.
  do 3 eexists. split; [reflexivity|]. split; [reflexivity|].
  exact (proj2 (NewFile_Open_RawLeaves NewDagModifier_unixfs "f"
                  (RawNode RepubSpec.cidC) [] _ (File.mkFlags false true false)
                  eq_refl) _ _ eq_refl).
Defined.

End NodeExtras.
